(** * Event.h : a listener list with add / remove / trigger

    Shallow embedding of the class template [Event<Types...>] of
    [src/EventListener/Event.h] and proofs of its specified behaviour.

    - [std::vector<Listener>] is a [list Listener]; [push_back], [clear],
      [std::remove_if] and [erase] are written out on lists with stdpp's
      indexed lookup and update.
    - pointers to [void] are addresses ([N], [nullptr] is [0]).
    - [std::function<void(Types...)>] is the closure it holds, kept as data
      ([Callback]) together with the function that calls it ([call]).
    - Member functions run in an error-and-state monad [M]: the state is the
      channel object ([this]) and the rest of the program ([World]); the
      error is a C++ exception leaving the member function. *)

From stdpp Require Import base list numbers.

(** ** Addresses and pointers to members *)

Definition ptr : Type := N.
Definition nullptr : ptr := 0%N.

(** A pointer to a member function of [T] is wider than a pointer to [void].
    The source reads only its first pointer-sized word,
    a [reinterpret_cast] of its address to [void**], dereferenced; the
    closure keeps all of it. *)
Record MemFn : Type := mk_MemFn {
  first_word : ptr;
  other_words : N
}.

(** ** Closures stored in [Callback = std::function<void(Types...)>] *)

Inductive Callback : Type :=
  | cb_empty
      (* a [std::function] without target *)
  | cb_function (function : ptr)
      (* target: the function pointer itself, called with the arguments *)
  | cb_discard (function : ptr)
      (* [function](Types...) { function(); } *)
  | cb_method (instance : ptr) (function : MemFn)
      (* [instance, function](Types... args) { (instance->*function)(args...); } *)
  | cb_method0 (instance : ptr) (function : MemFn).
      (* [instance, function](Types... args) { (instance->*function)(); } *)

(** Construction of a [std::function] from a function pointer: a null pointer
    gives the empty [std::function]. *)
Definition function_from_pointer (function : ptr) : Callback :=
  if (function =? nullptr)%N then cb_empty else cb_function function.

(** ** [struct Listener] and the channel *)

Record Listener : Type := mk_Listener {
  instancePtr : ptr;
  functionPtr : ptr;
  callback : Callback
}.

Record Event : Type := mk_Event {
  _listeners : list Listener
}.

(** A default-constructed [Event]. *)
Definition new_Event : Event := {| _listeners := [] |}.

(** ** [std::vector] operations used by the source *)

Section vector.
Context {A : Type}.

(** State of an element after [std::move] has been applied to it: valid
    but unspecified, hence a parameter. *)
Variable moved_from : A → A.
Variable pred : A → bool.

Definition push_back (x : A) (v : list A) : list A := v ++ [x].

Definition clear (v : list A) : list A := [].

(** [std::find_if(begin, end, pred)], as an index; [length v] is [end]. *)
Fixpoint find_if (v : list A) : nat :=
  match v with
  | [] => 0
  | x :: v' => if pred x then 0 else S (find_if v')
  end.

(** The loop of [std::remove_if]:
    while [first != last], an element at [first] that does not satisfy
    [pred] is move-assigned to the slot at [result], which then advances;
    [first] advances in either case.  [n] bounds the iterations left. *)
Fixpoint remove_if_loop (n : nat) (v : list A) (result first : nat)
  : list A * nat :=
  match n with
  | O => (v, result)
  | S n' =>
    match v !! first with
    | None => (v, result)
    | Some x =>
      if pred x then remove_if_loop n' v result (S first)
      else remove_if_loop n'
             (<[first := moved_from x]> (<[result := x]> v))
             (S result) (S first)
    end
  end.

(** [std::remove_if(v.begin(), v.end(), pred)]: the vector afterwards and
    the returned iterator. *)
Definition remove_if (v : list A) : list A * nat :=
  let first := find_if v in
  if (first =? length v)%nat then (v, first)
  else remove_if_loop (length v - S first) v first (S first).

(** [v.erase(it, v.end())]. *)
Definition erase_to_end (r : list A * nat) : list A := take (snd r) (fst r).

(** [v.erase(std::remove_if(v.begin(), v.end(), pred), v.end())]. *)
Definition erase_remove_if (v : list A) : list A :=
  erase_to_end (remove_if v).
End vector.

(** ** What the listeners' own code does

    The functions and methods given to the channel are code of the caller.
    A call of one of them is recorded as a [Call]; what it does to the rest
    of the program, and whether it throws, is given by [code] below. *)

Inductive Call (Args : Type) : Type :=
  | call_function (function : ptr) (args : Args)
      (* function(args...) *)
  | call_function0 (function : ptr)
      (* function() *)
  | call_method (instance : ptr) (function : MemFn) (args : Args)
      (* (instance->*function)(args...) *)
  | call_method0 (instance : ptr) (function : MemFn).
      (* (instance->*function)() *)
Arguments call_function {Args} function args.
Arguments call_function0 {Args} function.
Arguments call_method {Args} instance function args.
Arguments call_method0 {Args} instance function.

(** The program outside the channel: the calls made so far, oldest first,
    and the state the listeners' code works on. *)
Record World (Args U : Type) : Type := mk_World {
  log : list (Call Args);
  ustate : U
}.
Arguments mk_World {Args U} log ustate.
Arguments log {Args U} w.
Arguments ustate {Args U} w.

(** What can leave a member function of [Event] by exception. *)
Inductive Fault (Exn : Type) : Type :=
  | bad_function_call
      (* thrown by a call of an empty [std::function] *)
  | thrown (e : Exn).
      (* thrown by the listener's own code *)
Arguments bad_function_call {Exn}.
Arguments thrown {Exn} e.

Inductive Outcome (Exn A : Type) : Type :=
  | Normal (a : A)
  | Raised (e : Fault Exn).
Arguments Normal {Exn A} a.
Arguments Raised {Exn A} e.

(** A finished call of a member function: how it ended, the channel object
    and the rest of the program afterwards. *)
Record Run (Args U Exn A : Type) : Type := mk_Run {
  outcome : Outcome Exn A;
  this : Event;
  world : World Args U
}.
Arguments mk_Run {Args U Exn A} outcome this world.
Arguments outcome {Args U Exn A} r.
Arguments this {Args U Exn A} r.
Arguments world {Args U Exn A} r.

(** ** The class template [Event<Types...>]

    [Args] stands for the tuple of [Types...]. *)

Section Event.
Context {Args U Exn : Type}.

(** The caller's functions and methods: the effect of a call on the
    caller's state and the exception it throws, if any.  They do not touch
    the channel they are called from (the source gives no meaning to a
    listener that changes the list while [Trigger] walks it). *)
Variable code : Call Args → U → option Exn * U.

(** The state in which a move leaves a [std::function]. *)
Variable moved_from_callback : Callback → Callback.

Definition moved_from (l : Listener) : Listener :=
  {| instancePtr := instancePtr l;
     functionPtr := functionPtr l;
     callback := moved_from_callback (callback l) |}.

(** *** The monad of member functions *)

Definition M (A : Type) : Type := Event → World Args U → Run Args U Exn A.

Definition ret {A} (a : A) : M A := λ ev w, mk_Run (Normal a) ev w.

Definition throw {A} (e : Fault Exn) : M A := λ ev w, mk_Run (Raised e) ev w.

Definition bind {A B} (m : M A) (k : A → M B) : M B :=
  λ ev w,
    let r := m ev w in
    match outcome r with
    | Normal a => k a (this r) (world r)
    | Raised e => mk_Run (Raised e) (this r) (world r)
    end.

Local Notation "m1 >> m2" := (bind m1 (λ _, m2))
  (at level 100, m2 at level 200, right associativity).

(** Read and write access to the field [_listeners]. *)
Definition get_listeners : M (list Listener) :=
  λ ev w, mk_Run (Normal (_listeners ev)) ev w.

Definition modify_listeners (f : list Listener → list Listener) : M unit :=
  λ ev w, mk_Run (Normal tt) {| _listeners := f (_listeners ev) |} w.

(** A call into the caller's code. *)
Definition invoke (c : Call Args) : M unit :=
  λ ev w,
    let '(exn, u) := code c (ustate w) in
    let w' := {| log := log w ++ [c]; ustate := u |} in
    match exn with
    | None => mk_Run (Normal tt) ev w'
    | Some e => mk_Run (Raised (thrown e)) ev w'
    end.

(** [callback(args...)]: the call operator of [std::function]. *)
Definition call (cb : Callback) (args : Args) : M unit :=
  match cb with
  | cb_empty => throw bad_function_call
  | cb_function function => invoke (call_function function args)
  | cb_discard function => invoke (call_function0 function)
  | cb_method instance function => invoke (call_method instance function args)
  | cb_method0 instance function => invoke (call_method0 instance function)
  end.

(** A range-based [for] over a vector. *)
Fixpoint for_each (v : list Listener) (body : Listener → M unit) : M unit :=
  match v with
  | [] => ret tt
  | listener :: v' => body listener >> for_each v' body
  end.

(** *** Member functions, one definition per overload *)

(** [void AddListener(void( * function)(Types...))] *)
Definition AddListener_function (function : ptr) : M unit :=
  modify_listeners
    (push_back {| instancePtr := nullptr;
                  functionPtr := function;
                  callback := function_from_pointer function |}).

(** [void AddListener(void( * function)())] *)
Definition AddListener_function0 (function : ptr) : M unit :=
  modify_listeners
    (push_back {| instancePtr := nullptr;
                  functionPtr := function;
                  callback := cb_discard function |}).

(** [void RemoveListener(void( * function)(Types...))] *)
Definition RemoveListener_function (function : ptr) : M unit :=
  let functionPtr' := function in
  modify_listeners
    (erase_remove_if moved_from
       (λ listener, (functionPtr listener =? functionPtr')%N)).

(** [void RemoveListener(void( * function)())] *)
Definition RemoveListener_function0 (function : ptr) : M unit :=
  let functionPtr' := function in
  modify_listeners
    (erase_remove_if moved_from
       (λ listener, (functionPtr listener =? functionPtr')%N)).

(** [void AddListener(T* instance, void(T::* function)(Types...))] *)
Definition AddListener_method (instance : ptr) (function : MemFn) : M unit :=
  modify_listeners
    (push_back {| instancePtr := instance;
                  functionPtr := first_word function;
                  callback := cb_method instance function |}).

(** [void AddListener(T* instance, void(T::* function)())] *)
Definition AddListener_method0 (instance : ptr) (function : MemFn) : M unit :=
  modify_listeners
    (push_back {| instancePtr := instance;
                  functionPtr := first_word function;
                  callback := cb_method0 instance function |}).

(** [void RemoveListener(T* instance, void(T::* function)(Types...))] *)
Definition RemoveListener_method (instance : ptr) (function : MemFn)
  : M unit :=
  let functionPtr' := first_word function in
  modify_listeners
    (erase_remove_if moved_from
       (λ listener, (instancePtr listener =? instance)%N
                    && (functionPtr listener =? functionPtr')%N)).

(** [void RemoveListener(T* instance, void(T::* function)())] *)
Definition RemoveListener_method0 (instance : ptr) (function : MemFn)
  : M unit :=
  let functionPtr' := first_word function in
  modify_listeners
    (erase_remove_if moved_from
       (λ listener, (instancePtr listener =? instance)%N
                    && (functionPtr listener =? functionPtr')%N)).

(** [void RemoveAllListeners()] *)
Definition RemoveAllListeners : M unit := modify_listeners clear.

(** [void Trigger(Types... args) const] *)
Definition Trigger (args : Args) : M unit :=
  bind get_listeners
    (λ v, for_each v (λ listener, call (callback listener) args)).

(** *** Vocabulary of the specification

    The four ways to register a listener and the four ways to remove
    one, as values, so that statements can range over the overloads. *)

Inductive Registration : Type :=
  | reg_function (function : ptr)
  | reg_function0 (function : ptr)
  | reg_method (instance : ptr) (function : MemFn)
  | reg_method0 (instance : ptr) (function : MemFn).

Definition AddListener_of (reg : Registration) : M unit :=
  match reg with
  | reg_function function => AddListener_function function
  | reg_function0 function => AddListener_function0 function
  | reg_method instance function => AddListener_method instance function
  | reg_method0 instance function => AddListener_method0 instance function
  end.

(** The overload of [RemoveListener] that mirrors a registration. *)
Definition RemoveListener_of (reg : Registration) : M unit :=
  match reg with
  | reg_function function => RemoveListener_function function
  | reg_function0 function => RemoveListener_function0 function
  | reg_method instance function => RemoveListener_method instance function
  | reg_method0 instance function => RemoveListener_method0 instance function
  end.

(** Identity of the owner and of the callable of a registration. *)
Definition ownerIdentity (reg : Registration) : ptr :=
  match reg with
  | reg_function _ | reg_function0 _ => nullptr
  | reg_method instance _ | reg_method0 instance _ => instance
  end.

Definition callableIdentity (reg : Registration) : ptr :=
  match reg with
  | reg_function function | reg_function0 function => function
  | reg_method _ function | reg_method0 _ function => first_word function
  end.

(** The closure a registration stores. *)
Definition invoker (reg : Registration) : Callback :=
  match reg with
  | reg_function function => function_from_pointer function
  | reg_function0 function => cb_discard function
  | reg_method instance function => cb_method instance function
  | reg_method0 instance function => cb_method0 instance function
  end.

Definition record_of (reg : Registration) : Listener :=
  {| instancePtr := ownerIdentity reg;
     functionPtr := callableIdentity reg;
     callback := invoker reg |}.

(** The call a registered listener is meant to receive on [Trigger(args)]:
    with [args] for the exact-signature overloads, without arguments for
    the discarding ones. *)
Definition expected_call (args : Args) (reg : Registration) : Call Args :=
  match reg with
  | reg_function function => call_function function args
  | reg_function0 function => call_function0 function
  | reg_method instance function => call_method instance function args
  | reg_method0 instance function => call_method0 instance function
  end.

(** A record matches a removal request: by callable alone for the
    plain-function overloads, by owner and callable for the others. *)
Definition matches (reg : Registration) (l : Listener) : bool :=
  match reg with
  | reg_function function | reg_function0 function =>
      (functionPtr l =? function)%N
  | reg_method instance function | reg_method0 instance function =>
      (instancePtr l =? instance)%N
      && (functionPtr l =? first_word function)%N
  end.

(** The calls into the caller's code that one call of a closure makes. *)
Definition calls_of_callback (args : Args) (cb : Callback) : list (Call Args) :=
  match cb with
  | cb_empty => []
  | cb_function function => [call_function function args]
  | cb_discard function => [call_function0 function]
  | cb_method instance function => [call_method instance function args]
  | cb_method0 instance function => [call_method0 instance function]
  end.

Definition calls_of (args : Args) (v : list Listener) : list (Call Args) :=
  flat_map (λ listener, calls_of_callback args (callback listener)) v.

(** Member function calls one after the other; an exception ends the
    sequence. *)
Fixpoint sequence (ms : list (M unit)) : M unit :=
  match ms with
  | [] => ret tt
  | m :: ms' => m >> sequence ms'
  end.

(** What a caller can do with a channel. *)
Inductive Op : Type :=
  | op_AddListener (reg : Registration)
  | op_RemoveListener (reg : Registration)
  | op_RemoveAllListeners
  | op_Trigger (args : Args).

Definition do_op (op : Op) : M unit :=
  match op with
  | op_AddListener reg => AddListener_of reg
  | op_RemoveListener reg => RemoveListener_of reg
  | op_RemoveAllListeners => RemoveAllListeners
  | op_Trigger args => Trigger args
  end.

(** A caller that performs these one after the other and goes on after an
    exception of [Trigger]: the channel and the rest of the program at the
    end. *)
Fixpoint run_ops (ops : list Op) (ev : Event) (w : World Args U)
  : Event * World Args U :=
  match ops with
  | [] => (ev, w)
  | op :: ops' => let r := do_op op ev w in run_ops ops' (this r) (world r)
  end.

(** The registrations among them, oldest first. *)
Definition registered (ops : list Op) : list Registration :=
  flat_map (λ op, match op with op_AddListener reg => [reg] | _ => [] end) ops.

Definition is_Trigger (op : Op) : bool :=
  match op with op_Trigger _ => true | _ => false end.

End Event.

Notation "m1 >> m2" := (bind m1 (λ _, m2))
  (at level 100, m2 at level 200, right associativity).

(** ** A concrete program

    An [Event<int>] whose listeners' code counts the calls it receives.
    The free function at address [13] throws exception [1] instead. *)

Module Example.

Definition code (c : Call Z) (u : nat) : option nat * nat :=
  match c with
  | call_function function _ | call_function0 function =>
      if (function =? 13)%N then (Some 1, u) else (None, S u)
  | call_method _ _ _ | call_method0 _ _ => (None, S u)
  end.

(** A moved-from [std::function] is left empty. *)
Definition moved_from_callback (cb : Callback) : Callback := cb_empty.

Definition start : World Z nat := mk_World [] 0.

(** Two methods, and two objects of their class. *)
Definition OnEvent : MemFn := mk_MemFn 64%N 0%N.
Definition OnOther : MemFn := mk_MemFn 80%N 0%N.
Definition obj1 : ptr := 4096%N.
Definition obj2 : ptr := 8192%N.

End Example.

(** ** The specialization [Event<>]

    The class for an empty list of [Types...].  Its [Listener] has the
    same three fields and its only data member is the same vector, so the
    records above are reused.  [Args] is [unit]: a call [function()] is the
    call [call_function function tt], a call of a method without arguments
    is [call_method instance function tt]. *)

Module Event0.
Section specialization.
Context {U Exn : Type}.
Variable code : Call unit → U → option Exn * U.
Variable moved_from_callback : Callback → Callback.

Definition M0 (A : Type) : Type := Event → World unit U → Run unit U Exn A.

(** [void AddListener(void( * function)())] *)
Definition AddListener_function (function : ptr) : M0 unit :=
  modify_listeners
    (push_back {| instancePtr := nullptr;
                  functionPtr := function;
                  callback := function_from_pointer function |}).

(** [void RemoveListener(void( * function)())] *)
Definition RemoveListener_function (function : ptr) : M0 unit :=
  let functionPtr' := function in
  modify_listeners
    (erase_remove_if (moved_from moved_from_callback)
       (λ listener, (functionPtr listener =? functionPtr')%N)).

(** [void AddListener(T* instance, void(T::* function)())], its closure
    being [instance, function]() { (instance->*function)(); } *)
Definition AddListener_method (instance : ptr) (function : MemFn) : M0 unit :=
  modify_listeners
    (push_back {| instancePtr := instance;
                  functionPtr := first_word function;
                  callback := cb_method instance function |}).

(** [void RemoveListener(T* instance, void(T::* function)())] *)
Definition RemoveListener_method (instance : ptr) (function : MemFn)
  : M0 unit :=
  let functionPtr' := first_word function in
  modify_listeners
    (erase_remove_if (moved_from moved_from_callback)
       (λ listener, (instancePtr listener =? instance)%N
                    && (functionPtr listener =? functionPtr')%N)).

(** [void RemoveAllListeners()] *)
Definition RemoveAllListeners : M0 unit := modify_listeners clear.

(** [void Trigger() const] *)
Definition Trigger : M0 unit :=
  bind get_listeners (λ v, for_each v (λ l, call code (callback l) tt)).

(** The two ways to register a listener with [Event<>], and the record,
    the removal and the call that belong to each. *)
Inductive Registration0 : Type :=
  | reg0_function (function : ptr)
  | reg0_method (instance : ptr) (function : MemFn).

Definition AddListener_of (reg : Registration0) : M0 unit :=
  match reg with
  | reg0_function function => AddListener_function function
  | reg0_method instance function => AddListener_method instance function
  end.

Definition RemoveListener_of (reg : Registration0) : M0 unit :=
  match reg with
  | reg0_function function => RemoveListener_function function
  | reg0_method instance function => RemoveListener_method instance function
  end.

Definition record0_of (reg : Registration0) : Listener :=
  match reg with
  | reg0_function function =>
      {| instancePtr := nullptr; functionPtr := function;
         callback := function_from_pointer function |}
  | reg0_method instance function =>
      {| instancePtr := instance; functionPtr := first_word function;
         callback := cb_method instance function |}
  end.

Definition matches0 (reg : Registration0) (l : Listener) : bool :=
  match reg with
  | reg0_function function => (functionPtr l =? function)%N
  | reg0_method instance function =>
      (instancePtr l =? instance)%N
      && (functionPtr l =? first_word function)%N
  end.

Definition expected_call0 (reg : Registration0) : Call unit :=
  match reg with
  | reg0_function function => call_function function tt
  | reg0_method instance function => call_method instance function tt
  end.

(** The registration with the primary template that says the same. *)
Definition exact_signature (reg : Registration0) : Registration :=
  match reg with
  | reg0_function function => reg_function function
  | reg0_method instance function => reg_method instance function
  end.

End specialization.
End Event0.

(** A concrete program for [Event<>]: the listeners' code counts the calls
    it receives; the free function at address [13] throws exception [1]. *)

Module Example0.

Definition code (c : Call unit) (u : nat) : option nat * nat :=
  match c with
  | call_function function _ | call_function0 function =>
      if (function =? 13)%N then (Some 1, u) else (None, S u)
  | call_method _ _ _ | call_method0 _ _ => (None, S u)
  end.

Definition start : World unit nat := mk_World [] 0.

(** Two free functions. *)
Definition F1 : ptr := 5%N.
Definition F2 : ptr := 6%N.

End Example0.

(** * Properties *)

(** ** [erase] after [remove_if] keeps the elements that fail the predicate *)

Section vector_facts.
Context {A : Type}.
Variable moved_from : A → A.
Variable pred : A → bool.

Local Abbreviation keep := (λ x, negb (pred x)).

Lemma filter_find_if (v : list A) :
  List.filter keep v
  = take (find_if pred v) v ++ List.filter keep (drop (S (find_if pred v)) v).
Proof.
  induction v as [|x v IH]; simpl; [done|].
  destruct (pred x); simpl; [by rewrite drop_0|].
  by rewrite IH.
Qed.

Lemma find_if_le (v : list A) : find_if pred v ≤ length v.
Proof. induction v as [|x v IH]; simpl; [lia|]. destruct (pred x); simpl; lia. Qed.

Lemma remove_if_loop_take n : ∀ (v : list A) result first,
  result < first →
  length v - first ≤ n →
  erase_to_end (remove_if_loop moved_from pred n v result first)
  = take result v ++ List.filter keep (drop first v).
Proof.
  induction n as [|n IH]; intros v result first Hlt Hn; simpl.
  - rewrite drop_ge by lia. by rewrite app_nil_r.
  - destruct (v !! first) as [x|] eqn:Hx.
    + pose proof (lookup_lt_Some _ _ _ Hx) as Hfirst.
      rewrite (drop_S _ _ _ Hx). simpl.
      destruct (pred x); simpl.
      * apply IH; lia.
      * rewrite IH by (rewrite ?length_insert; lia).
        rewrite !drop_insert_lt by lia.
        rewrite take_insert_ge by lia.
        rewrite (take_S_r _ _ x) by (apply list_lookup_insert_eq; lia).
        rewrite take_insert_ge by lia.
        by rewrite <- app_assoc.
    + apply lookup_ge_None in Hx.
      rewrite drop_ge by lia. by rewrite app_nil_r.
Qed.

(** The erase-remove idiom computes a filter, whatever a move leaves
    behind. *)
Lemma erase_remove_if_filter (v : list A) :
  erase_remove_if moved_from pred v = List.filter keep v.
Proof.
  unfold erase_remove_if, remove_if.
  rewrite (filter_find_if v).
  pose proof (find_if_le v) as Hle.
  destruct (Nat.eqb_spec (find_if pred v) (length v)) as [Heq|Hne].
  - unfold erase_to_end; simpl.
    rewrite drop_ge by lia. by rewrite app_nil_r.
  - apply remove_if_loop_take; lia.
Qed.

Lemma filter_keep_elem_of (v : list A) (x : A) :
  x ∈ List.filter keep v ↔ x ∈ v ∧ pred x = false.
Proof.
  clear moved_from.
  rewrite !list_elem_of_In, filter_In.
  destruct (pred x); simpl; intuition congruence.
Qed.

Lemma filter_keep_sublist (v : list A) : sublist (List.filter keep v) v.
Proof.
  induction v as [|x v IH]; simpl; [constructor|].
  destruct (pred x); simpl; by constructor.
Qed.

Lemma filter_keep_all (v : list A) :
  (∀ x, x ∈ v → pred x = false) → List.filter keep v = v.
Proof.
  induction v as [|x v IH]; simpl; intros Hall; [done|].
  rewrite (Hall x) by left. simpl.
  f_equal. apply IH. intros y Hy. apply Hall. by right.
Qed.
End vector_facts.

(** ** The member functions, computed *)

Section Event_facts.
Context {Args U Exn : Type}.
Variable code : Call Args → U → option Exn * U.
Variable moved_from_callback : Callback → Callback.

Implicit Types (ev : Event) (w : World Args U) (l : Listener)
  (v : list Listener) (reg : Registration) (args : Args).

Local Abbreviation run := (Run Args U Exn unit).
Local Abbreviation body args := (λ listener, call code (callback listener) args).

Lemma Event_eta ev : {| _listeners := _listeners ev |} = ev.
Proof. by destruct ev. Qed.

Lemma AddListener_of_run reg ev w :
  AddListener_of reg ev w
  = (mk_Run (Normal tt) {| _listeners := _listeners ev ++ [record_of reg] |} w
     : run).
Proof. by destruct reg. Qed.

Lemma RemoveListener_of_run reg ev w :
  RemoveListener_of moved_from_callback reg ev w
  = (mk_Run (Normal tt)
       {| _listeners := List.filter (λ l, negb (matches reg l)) (_listeners ev) |}
       w : run).
Proof.
  destruct reg; simpl;
    unfold RemoveListener_function, RemoveListener_function0,
      RemoveListener_method, RemoveListener_method0, modify_listeners;
    by rewrite erase_remove_if_filter.
Qed.

Lemma sequence_AddListener_run (regs : list Registration) : ∀ ev w,
  sequence (map AddListener_of regs) ev w
  = (mk_Run (Normal tt)
       {| _listeners := _listeners ev ++ map record_of regs |} w : run).
Proof.
  induction regs as [|reg regs IH]; intros ev w; simpl.
  - unfold ret. by rewrite app_nil_r, Event_eta.
  - unfold bind. rewrite AddListener_of_run. simpl.
    rewrite IH. simpl. by rewrite <- app_assoc.
Qed.

Lemma Trigger_for_each args ev w :
  Trigger code args ev w = for_each (_listeners ev) (body args) ev w.
Proof. reflexivity. Qed.

(** A call of a closure leaves the channel alone and adds its own calls,
    and nothing else, to the log. *)
Lemma call_this cb args ev w : this (call code cb args ev w) = ev.
Proof.
  destruct cb; simpl; try done;
    unfold invoke; destruct (code _ _) as [[e|] u]; done.
Qed.

Lemma call_log cb args ev w :
  log (world (call code cb args ev w))
  = log w ++ calls_of_callback args cb.
Proof.
  destruct cb; simpl; [by rewrite app_nil_r|..];
    unfold invoke; destruct (code _ _) as [[e|] u]; done.
Qed.

Lemma call_world_independent cb args ev ev' w :
  world (call code cb args ev w) = world (call code cb args ev' w)
  ∧ outcome (call code cb args ev w) = outcome (call code cb args ev' w).
Proof.
  destruct cb; simpl; try done;
    unfold invoke; destruct (code _ _) as [[e|] u]; done.
Qed.

Lemma for_each_this v args : ∀ ev w,
  this (for_each v (body args) ev w) = ev.
Proof.
  induction v as [|l v IH]; intros ev w; simpl; [done|].
  unfold bind.
  pose proof (call_this (callback l) args ev w) as Hthis.
  destruct (outcome (call code (callback l) args ev w)); simpl.
  - by rewrite IH.
  - done.
Qed.

Lemma for_each_log_normal v args : ∀ ev w,
  outcome (for_each v (body args) ev w) = Normal tt →
  log (world (for_each v (body args) ev w)) = log w ++ calls_of args v.
Proof.
  induction v as [|l v IH]; intros ev w; simpl.
  - by rewrite app_nil_r.
  - unfold bind.
    pose proof (call_log (callback l) args ev w) as Hlog.
    destruct (outcome (call code (callback l) args ev w)); simpl; [|done].
    intros Hn. rewrite (IH _ _ Hn), Hlog. by rewrite <- app_assoc.
Qed.

Lemma Trigger_this args ev w : this (Trigger code args ev w) = ev.
Proof. by rewrite Trigger_for_each, for_each_this. Qed.

(** Walking [pre ++ post] is walking [pre], then [post]. *)
Lemma for_each_app pre post args : ∀ ev w,
  for_each (pre ++ post) (body args) ev w
  = (for_each pre (body args) >> for_each post (body args)) ev w.
Proof.
  induction pre as [|l pre IH]; intros ev w; simpl; [done|].
  unfold bind in *.
  destruct (outcome (call code (callback l) args ev w)); simpl; [|done].
  by rewrite IH.
Qed.

(** The walk does not look at the object it is threaded through. *)
Lemma for_each_independent v args : ∀ ev ev' w,
  world (for_each v (body args) ev w) = world (for_each v (body args) ev' w)
  ∧ outcome (for_each v (body args) ev w)
    = outcome (for_each v (body args) ev' w).
Proof.
  induction v as [|l v IH]; intros ev ev' w; simpl; [done|].
  unfold bind.
  destruct (call_world_independent (callback l) args ev ev' w) as [Hw Ho].
  rewrite !call_this.
  rewrite <- Ho, <- Hw.
  destruct (outcome (call code (callback l) args ev w)); simpl; [|done].
  apply IH.
Qed.

(** On a normal return, the listeners built by the four [AddListener]
    overloads have each received the call they were registered for. *)
Lemma for_each_registered_log (regs : list Registration) args : ∀ ev w,
  outcome (for_each (map record_of regs) (body args) ev w) = Normal tt →
  log (world (for_each (map record_of regs) (body args) ev w))
  = log w ++ map (expected_call args) regs.
Proof.
  induction regs as [|reg regs IH]; intros ev w; simpl.
  - by rewrite app_nil_r.
  - unfold bind.
    destruct reg as [f|f|i m|i m]; simpl;
      try (unfold function_from_pointer;
           destruct (f =? nullptr)%N; simpl; [done|]);
      unfold invoke; destruct (code _ _) as [[e|] u]; simpl; try done;
      intros Hn; rewrite (IH _ _ Hn); simpl; by rewrite <- app_assoc.
Qed.

Lemma for_each_then_registered_log v (regs : list Registration) args ev w :
  outcome (for_each (v ++ map record_of regs) (body args) ev w) = Normal tt →
  log (world (for_each (v ++ map record_of regs) (body args) ev w))
  = log w ++ calls_of args v ++ map (expected_call args) regs.
Proof.
  rewrite for_each_app. unfold bind.
  pose proof (for_each_log_normal v args ev w) as Hpre.
  destruct (outcome (for_each v (body args) ev w)) as [[]|e];
    cbv beta iota; [|done].
  intros Hn. rewrite (for_each_registered_log regs args _ _ Hn).
  rewrite Hpre by done. by rewrite <- app_assoc.
Qed.

Lemma matches_record_of reg : matches reg (record_of reg) = true.
Proof. destruct reg; simpl; by rewrite ?N.eqb_refl. Qed.

Lemma matches_false_pair reg l :
  matches reg l = false →
  ¬ (instancePtr l = ownerIdentity reg ∧ functionPtr l = callableIdentity reg).
Proof.
  intros Hm [Ho Hc]. destruct reg; simpl in *;
    rewrite ?Ho, ?Hc, ?N.eqb_refl in Hm; done.
Qed.

Lemma Run_eta (r : run) : mk_Run (outcome r) (this r) (world r) = r.
Proof. by destruct r. Qed.

(** Whatever the caller does, the sequence is a subsequence of what it held
    followed by what has been registered since. *)
Lemma run_ops_sublist (ops : list (@Op Args)) : ∀ ev w,
  sublist (_listeners (run_ops code moved_from_callback ops ev w).1)
          (_listeners ev ++ map record_of (registered ops)).
Proof.
  induction ops as [|op ops IH]; intros ev w; simpl.
  - by rewrite app_nil_r.
  - destruct op as [reg|reg| |args]; cbn [do_op].
    + rewrite AddListener_of_run. cbn [this world].
      etrans; [apply IH|]. cbn [_listeners]. by rewrite <- app_assoc.
    + rewrite RemoveListener_of_run. cbn [this world].
      etrans; [apply IH|]. cbn [_listeners app].
      apply sublist_app; [apply filter_keep_sublist|done].
    + etrans; [apply IH|]. cbn [this world RemoveAllListeners modify_listeners
        _listeners clear app]. by apply sublist_inserts_l.
    + etrans; [apply IH|]. by rewrite Trigger_this.
Qed.

(** ** Specified behaviour *)

(** C1 (amended): for every sequence of AddListener calls on an Event
    followed by one Trigger(args) call that returns without a fault, each
    registered listener has been called exactly once, in registration
    order: after the calls of the listeners the channel already held, the
    calls made are, in this order, one per registration, with [args] for
    the exact-signature overloads and without arguments for the discarding
    ones. *)
Theorem Trigger_calls_each_registered_once
    (regs : list Registration) args ev w :
  let r := (sequence (map AddListener_of regs) >> Trigger code args) ev w in
  outcome r = Normal tt →
  log (world r)
  = log w ++ calls_of args (_listeners ev) ++ map (expected_call args) regs.
Proof.
  cbv zeta. unfold bind. rewrite sequence_AddListener_run.
  cbn [outcome this world]. rewrite Trigger_for_each. cbn [_listeners].
  apply for_each_then_registered_log.
Qed.

(** C2 (amended): for every channel state, RemoveListener(instance,
    function) removes exactly the records whose owner is [instance] and
    whose callable identity is that of [function] (the discarding overload
    does the same); a listener registered with the same method for another
    owner is not removed, and a later Trigger that returns without a
    fault has called it. *)
Theorem RemoveListener_method_removes_exactly
    (instance : ptr) (function : MemFn) ev w :
  let r := RemoveListener_method moved_from_callback instance function ev w
           : run in
  r = RemoveListener_method0 moved_from_callback instance function ev w
  ∧ _listeners (this r)
    = List.filter
        (λ l, negb ((instancePtr l =? instance)%N
                    && (functionPtr l =? first_word function)%N))
        (_listeners ev)
  ∧ ∀ other : ptr,
      other ≠ instance →
      record_of (reg_method other function) ∈ _listeners ev →
      record_of (reg_method other function) ∈ _listeners (this r)
      ∧ ∀ args w',
          outcome (Trigger code args (this r) w') = Normal tt →
          call_method other function args
            ∈ log (world (Trigger code args (this r) w')).
Proof.
  cbv zeta. split; [done|].
  pose proof (RemoveListener_of_run (reg_method instance function) ev w)
    as Hrun. cbn [RemoveListener_of matches] in Hrun.
  rewrite Hrun. cbn [this]. split; [done|].
  intros other Hne Hin.
  assert (record_of (reg_method other function)
          ∈ List.filter
              (λ l, negb ((instancePtr l =? instance)%N
                          && (functionPtr l =? first_word function)%N))
              (_listeners ev)) as Hkept.
  { apply filter_keep_elem_of. split; [done|]. simpl.
    apply N.eqb_neq in Hne. by rewrite Hne. }
  split; [done|].
  intros args w' Hn. rewrite Trigger_for_each in *. simpl in *.
  rewrite (for_each_log_normal _ _ _ _ Hn).
  apply list_elem_of_In, in_or_app. right.
  unfold calls_of. apply in_flat_map.
  exists (record_of (reg_method other function)).
  split; [by apply list_elem_of_In|]. simpl. by left.
Qed.

(** C3 (amended): registering the same (owner, callable) pair twice adds
    two records at the end of the sequence (nothing is deduplicated); a
    Trigger that returns without a fault has called both, after the
    listeners registered before them; and one call of the mirroring
    RemoveListener deletes both: what is left are the earlier records that
    do not match, and no record of that pair. *)
Theorem duplicate_registration reg ev w :
  let r2 := (AddListener_of reg >> AddListener_of reg) ev w : run in
  let r3 := RemoveListener_of moved_from_callback reg (this r2) (world r2)
            : run in
  _listeners (this r2) = _listeners ev ++ [record_of reg; record_of reg]
  ∧ (∀ args w',
       outcome (Trigger code args (this r2) w') = Normal tt →
       log (world (Trigger code args (this r2) w'))
       = log w' ++ calls_of args (_listeners ev)
           ++ [expected_call args reg; expected_call args reg])
  ∧ _listeners (this r3)
    = List.filter (λ l, negb (matches reg l)) (_listeners ev)
  ∧ Forall
      (λ l, ¬ (instancePtr l = ownerIdentity reg
               ∧ functionPtr l = callableIdentity reg))
      (_listeners (this r3)).
Proof.
  assert ((AddListener_of reg >> AddListener_of reg) ev w
          = (mk_Run (Normal tt)
               {| _listeners := _listeners ev ++ [record_of reg; record_of reg] |}
               w : run)) as Hr2.
  { unfold bind. rewrite (AddListener_of_run reg ev w). cbn [outcome this world].
    rewrite AddListener_of_run. cbn [_listeners]. by rewrite <- app_assoc. }
  cbv zeta. rewrite Hr2. cbn [this world _listeners].
  split; [done|]. split.
  - intros args w'. rewrite Trigger_for_each. cbn [_listeners].
    change [record_of reg; record_of reg] with (map record_of [reg; reg]).
    apply for_each_then_registered_log.
  - rewrite RemoveListener_of_run. cbn [this _listeners].
    rewrite filter_app. simpl. rewrite matches_record_of. simpl.
    rewrite app_nil_r. split; [done|].
    apply Forall_forall. intros l Hl.
    apply list_elem_of_In, filter_keep_elem_of in Hl as [_ Hm].
    by apply matches_false_pair.
Qed.

(** C4: in every channel state in which no record matches the identity
    (plain-function overloads) or the identity pair (method overloads)
    given, each of the four RemoveListener overloads returns normally
    and leaves the channel, and everything else, as it was. *)
Theorem RemoveListener_without_match_is_noop reg ev w :
  (∀ l, l ∈ _listeners ev → matches reg l = false) →
  RemoveListener_of moved_from_callback reg ev w
  = (mk_Run (Normal tt) ev w : run).
Proof.
  intros Hnone. rewrite RemoveListener_of_run.
  rewrite filter_keep_all by done. by rewrite Event_eta.
Qed.

(** C5: RemoveListener(function) removes every previously added
    plain-function listener whose callable identity is that of [function],
    whichever overload registered it.  AddListener(function) in its
    exact-signature overload and in its discarding overload both append a
    record without owner whose [functionPtr] is the address of [function];
    RemoveListener(function), in either plain-function overload, compares
    that address: it leaves no record with it, so a listener added through
    either AddListener overload and then removed through either
    RemoveListener overload is gone, and the records with another callable
    identity all stay, in their order. *)
Theorem RemoveListener_function_any_registration (function : ptr) ev w :
  let r := RemoveListener_function moved_from_callback function ev w
           : run in
  let r0 := RemoveListener_function0 moved_from_callback function ev w
            : run in
  let kept := List.filter (λ l, negb (functionPtr l =? function)%N)
                (_listeners ev) in
  r0 = r
  ∧ _listeners (this r) = kept
  ∧ Forall (λ l, functionPtr l ≠ function) (_listeners (this r))
  ∧ (record_of (reg_function function) ∉ _listeners (this r))
  ∧ (record_of (reg_function0 function) ∉ _listeners (this r))
  ∧ _listeners (this (AddListener_function function ev w : run))
    = _listeners ev
      ++ [mk_Listener nullptr function (function_from_pointer function)]
  ∧ _listeners (this (AddListener_function0 function ev w : run))
    = _listeners ev ++ [mk_Listener nullptr function (cb_discard function)]
  ∧ (AddListener_function function
     >> RemoveListener_function moved_from_callback function) ev w
    = (mk_Run (Normal tt) {| _listeners := kept |} w : run)
  ∧ (AddListener_function function
     >> RemoveListener_function0 moved_from_callback function) ev w
    = (mk_Run (Normal tt) {| _listeners := kept |} w : run)
  ∧ (AddListener_function0 function
     >> RemoveListener_function moved_from_callback function) ev w
    = (mk_Run (Normal tt) {| _listeners := kept |} w : run)
  ∧ (AddListener_function0 function
     >> RemoveListener_function0 moved_from_callback function) ev w
    = (mk_Run (Normal tt) {| _listeners := kept |} w : run).
Proof.
  cbv zeta. split; [done|].
  pose proof (RemoveListener_of_run (reg_function function) ev w) as Hrun.
  cbn [RemoveListener_of matches] in Hrun. rewrite Hrun. cbn [this _listeners].
  split; [done|].
  assert (∀ l, l ∈ List.filter (λ l, negb (functionPtr l =? function)%N)
                     (_listeners ev) → functionPtr l ≠ function) as Hgone.
  { intros l Hl. apply filter_keep_elem_of in Hl as [_ Hm].
    by apply N.eqb_neq. }
  split.
  { apply Forall_forall. intros l Hl. by apply Hgone, list_elem_of_In. }
  split; [intros Hin; by apply Hgone in Hin|].
  split; [intros Hin; by apply Hgone in Hin|].
  split; [done|]. split; [done|].
  assert (∀ reg',
            callableIdentity reg' = function →
            ∀ remove_reg,
              callableIdentity remove_reg = function →
              ownerIdentity remove_reg = nullptr →
              matches remove_reg = (λ l, (functionPtr l =? function)%N) →
              (AddListener_of reg'
               >> RemoveListener_of moved_from_callback remove_reg) ev w
              = (mk_Run (Normal tt)
                   {| _listeners :=
                        List.filter (λ l, negb (functionPtr l =? function)%N)
                          (_listeners ev) |} w : run)) as Hboth.
  { intros reg' Hid remove_reg _ _ Hm. unfold bind.
    rewrite AddListener_of_run. cbn [outcome this world].
    rewrite RemoveListener_of_run. cbn [_listeners]. rewrite Hm.
    rewrite filter_app. simpl. rewrite Hid, N.eqb_refl. simpl.
    by rewrite app_nil_r. }
  split; [exact (Hboth (reg_function function) eq_refl
                   (reg_function function) eq_refl eq_refl eq_refl)|].
  split; [exact (Hboth (reg_function function) eq_refl
                   (reg_function0 function) eq_refl eq_refl eq_refl)|].
  split; [exact (Hboth (reg_function0 function) eq_refl
                   (reg_function function) eq_refl eq_refl eq_refl)|].
  exact (Hboth (reg_function0 function) eq_refl
           (reg_function0 function) eq_refl eq_refl eq_refl).
Qed.

(** C6: the listener sequence stays in registration order: each of the
    four AddListener overloads puts its record at the end and leaves the
    records before it in place; each of the four RemoveListener overloads
    leaves a subsequence of the sequence it found, the survivors in the
    order they had; hence after any series of operations on a new Event the
    sequence is a subsequence of the records registered, in the order of
    their registration. *)
Theorem listeners_stay_in_registration_order ev w (ops : list (@Op Args)) :
  (∀ reg,
     _listeners (this (AddListener_of reg ev w : run))
     = _listeners ev ++ [record_of reg])
  ∧ (∀ reg,
       sublist
         (_listeners (this (RemoveListener_of moved_from_callback reg ev w : run)))
         (_listeners ev))
  ∧ sublist
      (_listeners (run_ops code moved_from_callback ops new_Event w).1)
      (map record_of (registered ops)).
Proof.
  split; [|split].
  - intros reg. by rewrite AddListener_of_run.
  - intros reg. rewrite RemoveListener_of_run. cbn [this _listeners].
    apply filter_keep_sublist.
  - apply (run_ops_sublist ops new_Event w).
Qed.

(** C7: RemoveAllListeners empties the listener sequence whatever it
    held; calling it twice in a row is calling it once; and
    RemoveAllListeners followed by Trigger calls no listener: Trigger
    returns normally and the log and the caller's state are untouched. *)
Theorem RemoveAllListeners_empties ev w args :
  _listeners (this (RemoveAllListeners ev w : run)) = []
  ∧ (RemoveAllListeners >> RemoveAllListeners) ev w
    = (RemoveAllListeners ev w : run)
  ∧ (RemoveAllListeners >> Trigger code args) ev w
    = mk_Run (Normal tt) new_Event w.
Proof. done. Qed.

(** C8: Trigger does not change the listener sequence: for every channel
    state, arguments and state of the caller, and however the call ends,
    the channel object after Trigger is the one before it. *)
Theorem Trigger_leaves_listeners args ev w :
  this (Trigger code args ev w) = ev
  ∧ _listeners (this (Trigger code args ev w)) = _listeners ev.
Proof. by rewrite Trigger_this. Qed.


(** C10: the plain-function RemoveListener overloads decide by the
    callable identity alone: the survivors are the records whose
    [functionPtr] differs from the function's address, whatever their
    [instancePtr]; a method listener with a non-null owner is removed when
    the first word of its method pointer equals that address. *)
Theorem RemoveListener_function_ignores_owner
    (instance : ptr) (method : MemFn) ev w :
  let function := first_word method in
  let r := RemoveListener_function moved_from_callback function ev w
           : run in
  let r0 := RemoveListener_function0 moved_from_callback function ev w
            : run in
  _listeners (this r)
  = List.filter (λ l, negb (functionPtr l =? function)%N) (_listeners ev)
  ∧ _listeners (this r0) = _listeners (this r)
  ∧ Forall (λ l, functionPtr l ≠ function) (_listeners (this r))
  ∧ (record_of (reg_method instance method) ∉ _listeners (this r))
  ∧ (record_of (reg_method0 instance method) ∉ _listeners (this r)).
Proof.
  cbv zeta.
  pose proof (RemoveListener_of_run (reg_function (first_word method)) ev w)
    as Hrun.
  cbn [RemoveListener_of matches] in Hrun.
  split; [by rewrite Hrun|]. split; [done|].
  rewrite Hrun. cbn [this _listeners].
  assert (∀ l, l ∈ List.filter (λ l, negb (functionPtr l =? first_word method)%N)
                     (_listeners ev) → functionPtr l ≠ first_word method)
    as Hgone.
  { intros l Hl. apply filter_keep_elem_of in Hl as [_ Hm].
    by apply N.eqb_neq. }
  split.
  { apply Forall_forall. intros l Hl. by apply Hgone, list_elem_of_In. }
  split; intros Hin; by apply Hgone in Hin.
Qed.

End Event_facts.

(** ** The theorems at work on the concrete program *)

Section Example_runs.
Import Example.

(** [remove_if] on numbers, removing the even ones; a moved-from number is
    shown as [0].  The kept elements are moved to the front, the returned
    iterator is at index [3], and [erase] cuts the rest off. *)
Example remove_if_even :
  remove_if (λ _, 0) Nat.even [1; 2; 3; 4; 5] = ([1; 3; 5; 4; 0], 3)
  ∧ erase_remove_if (λ _, 0) Nat.even [1; 2; 3; 4; 5] = [1; 3; 5].
Proof. split; reflexivity. Qed.

(** The scenario of the specification: register [LogA] (no parameters, at
    address [5]) and [obj1.OnEvent(int)]; Trigger(42); RemoveListener of
    [LogA]; Trigger(7). *)
Example scenario_LogA_OnEvent :
  let ops := [op_AddListener (reg_function0 5%N);
              op_AddListener (reg_method obj1 OnEvent);
              op_Trigger 42%Z;
              op_RemoveListener (reg_function0 5%N);
              op_Trigger 7%Z] in
  log (run_ops code moved_from_callback ops new_Event start).2
  = [call_function0 5%N; call_method obj1 OnEvent 42%Z;
     call_method obj1 OnEvent 7%Z].
Proof. reflexivity. Qed.

(** A null function pointer given to the exact-signature overload makes an
    empty [std::function]; Trigger then ends with [bad_function_call]. *)
Example Trigger_null_function :
  (AddListener_function nullptr >> Trigger code 42%Z) new_Event start
  = mk_Run (Raised bad_function_call)
      {| _listeners := [mk_Listener nullptr nullptr cb_empty] |} start.
Proof. reflexivity. Qed.

(** The scenario of the specification: the free function [LogA], without
    parameters, at address [5], then the method [OnEvent(int)] of [obj1];
    Trigger(42) calls [LogA()] and then [obj1.OnEvent(42)]. *)
Lemma Trigger_calls_each_registered_once_witness :
  let regs := [reg_function0 5%N; reg_method obj1 OnEvent] in
  let r := (sequence (map AddListener_of regs) >> Trigger code 42%Z)
             new_Event start in
  outcome r = Normal tt
  ∧ log (world r) = [call_function0 5%N; call_method obj1 OnEvent 42%Z].
Proof.
  split; [reflexivity|].
  apply (Trigger_calls_each_registered_once code
           [reg_function0 5%N; reg_method obj1 OnEvent] 42%Z new_Event start).
  reflexivity.
Defined.

(** C1 as stated fails: the first of two registered functions throws, and
    the second is never called. *)
Lemma Trigger_stops_at_first_fault :
  let regs := [reg_function 13%N; reg_function 21%N] in
  let r := (sequence (map AddListener_of regs) >> Trigger code 42%Z)
             new_Event start in
  outcome r = Raised (thrown 1)
  ∧ log (world r) = [call_function 13%N 42%Z]
  ∧ log (world r) ≠ log start ++ map (expected_call 42%Z) regs.
Proof. split; [reflexivity|]. split; [reflexivity|]. discriminate. Qed.

(** The same method registered for [obj1] and for [obj2];
    RemoveListener(obj1, OnEvent) leaves the record of [obj2], and
    Trigger(7) calls [obj2.OnEvent(7)]. *)
Lemma RemoveListener_method_removes_exactly_witness :
  let ev := {| _listeners := [record_of (reg_method obj1 OnEvent);
                              record_of (reg_method obj2 OnEvent)] |} in
  let r := RemoveListener_method moved_from_callback obj1 OnEvent ev start
           : Run Z nat nat unit in
  obj2 ≠ obj1
  ∧ record_of (reg_method obj2 OnEvent) ∈ _listeners ev
  ∧ outcome (Trigger code 7%Z (this r) start) = Normal tt
  ∧ call_method obj2 OnEvent 7%Z ∈ log (world (Trigger code 7%Z (this r) start)).
Proof.
  assert (obj2 ≠ obj1) as Hne by discriminate.
  assert (record_of (reg_method obj2 OnEvent)
          ∈ [record_of (reg_method obj1 OnEvent);
             record_of (reg_method obj2 OnEvent)]) as Hin
    by (right; left).
  split; [exact Hne|]. split; [exact Hin|]. split; [reflexivity|].
  exact (proj2
           (proj2 (proj2 (RemoveListener_method_removes_exactly
                            code moved_from_callback obj1 OnEvent
                            {| _listeners := [record_of (reg_method obj1 OnEvent);
                                              record_of (reg_method obj2 OnEvent)] |}
                            start))
              obj2 Hne Hin)
           7%Z start eq_refl).
Defined.

(** C2 as stated fails: the record of [obj2] survives the removal, but a
    function registered before it throws, and Trigger never reaches it. *)
Lemma surviving_listener_not_reached_after_fault :
  let regs := [reg_function 13%N; reg_method obj1 OnEvent;
               reg_method obj2 OnEvent] in
  let ev := this (sequence (map AddListener_of regs) new_Event start
                  : Run Z nat nat unit) in
  let r := RemoveListener_method moved_from_callback obj1 OnEvent ev start
           : Run Z nat nat unit in
  let t := Trigger code 42%Z (this r) start in
  obj2 ≠ obj1
  ∧ record_of (reg_method obj2 OnEvent) ∈ _listeners ev
  ∧ _listeners (this r)
    = [record_of (reg_function 13%N); record_of (reg_method obj2 OnEvent)]
  ∧ outcome t = Raised (thrown 1)
  ∧ (call_method obj2 OnEvent 42%Z ∉ log (world t)).
Proof.
  split; [discriminate|]. split; [right; right; left|].
  split; [reflexivity|]. split; [reflexivity|].
  intros Hin. apply list_elem_of_In in Hin. simpl in Hin.
  destruct Hin as [Heq|[]]. discriminate Heq.
Qed.

(** [obj1.OnEvent] registered twice on a channel that already holds
    [LogA]: both records are added, Trigger(42) calls the method twice,
    and one RemoveListener(obj1, OnEvent) leaves [LogA] alone. *)
Lemma duplicate_registration_witness :
  let ev := {| _listeners := [record_of (reg_function0 5%N)] |} in
  let reg := reg_method obj1 OnEvent in
  let r2 := (AddListener_of reg >> AddListener_of reg) ev start
            : Run Z nat nat unit in
  let r3 := RemoveListener_of moved_from_callback reg (this r2) (world r2)
            : Run Z nat nat unit in
  outcome (Trigger code 42%Z (this r2) start) = Normal tt
  ∧ log (world (Trigger code 42%Z (this r2) start))
    = [call_function0 5%N; call_method obj1 OnEvent 42%Z;
       call_method obj1 OnEvent 42%Z]
  ∧ _listeners (this r3) = [record_of (reg_function0 5%N)].
Proof.
  split; [reflexivity|]. split.
  - exact (proj1 (proj2 (duplicate_registration code moved_from_callback
                           (reg_method obj1 OnEvent)
                           {| _listeners := [record_of (reg_function0 5%N)] |}
                           start))
             42%Z start eq_refl).
  - reflexivity.
Defined.

(** C3 as stated fails: the function registered twice throws at its first
    call, so Trigger calls one of the two records only. *)
Lemma second_duplicate_not_called_after_fault :
  let reg := reg_function 13%N in
  let r2 := (AddListener_of reg >> AddListener_of reg) new_Event start
            : Run Z nat nat unit in
  let t := Trigger code 42%Z (this r2) start in
  _listeners (this r2) = [record_of reg; record_of reg]
  ∧ outcome t = Raised (thrown 1)
  ∧ log (world t) = [call_function 13%N 42%Z]
  ∧ log (world t) ≠ [expected_call 42%Z reg; expected_call 42%Z reg].
Proof.
  split; [reflexivity|]. split; [reflexivity|]. split; [reflexivity|].
  discriminate.
Qed.

(** Removing a function that was never registered, and a method of an
    object that was never registered, changes nothing. *)
Lemma RemoveListener_without_match_is_noop_witness :
  let ev := {| _listeners := [record_of (reg_function0 5%N);
                              record_of (reg_method obj1 OnEvent)] |} in
  RemoveListener_of moved_from_callback (reg_method obj2 OnEvent) ev start
  = (mk_Run (Normal tt) ev start : Run Z nat nat unit).
Proof.
  apply (RemoveListener_without_match_is_noop moved_from_callback
           (reg_method obj2 OnEvent)).
  intros l Hl. apply list_elem_of_In in Hl. simpl in Hl.
  destruct Hl as [<-|[<-|[]]]; reflexivity.
Defined.


End Example_runs.

(** * Further properties of the member functions *)

(** ** Filters *)

Section filter_facts.
Context {A : Type}.
Implicit Types (f g : A → bool) (v : list A).

Lemma filter_filter_same f v :
  List.filter f (List.filter f v) = List.filter f v.
Proof.
  induction v as [|x v IH]; simpl; [done|].
  destruct (f x) eqn:Hx; simpl; [|done]. by rewrite Hx, IH.
Qed.

Lemma filter_filter_swap f g v :
  List.filter f (List.filter g v) = List.filter g (List.filter f v).
Proof.
  induction v as [|x v IH]; simpl; [done|].
  destruct (g x) eqn:Hg, (f x) eqn:Hf; simpl; rewrite ?Hg, ?Hf, IH; done.
Qed.

Lemma filter_split_length f v :
  length (List.filter (λ x, negb (f x)) v) + length (List.filter f v)
  = length v.
Proof.
  induction v as [|x v IH]; simpl; [done|].
  destruct (f x); simpl; lia.
Qed.

(** A filter on one condition does not disturb a filter on another
    condition that its removed elements all fail. *)
Lemma filter_filter_disjoint f g v :
  (∀ x, f x = false → g x = false) →
  List.filter g (List.filter f v) = List.filter g v.
Proof.
  intros Hfg. induction v as [|x v IH]; simpl; [done|].
  destruct (f x) eqn:Hf; simpl.
  - by rewrite IH.
  - by rewrite (Hfg x Hf).
Qed.
End filter_facts.

(** ** The generic class *)

Section Event_more.
Context {Args U Exn : Type}.
Variable code : Call Args → U → option Exn * U.
Variable moved_from_callback : Callback → Callback.

Implicit Types (ev : Event) (w : World Args U) (l : Listener)
  (v : list Listener) (reg : Registration) (args : Args).

Local Abbreviation run := (Run Args U Exn unit).
Local Abbreviation body args := (λ listener, call code (callback listener) args).

(** Whatever the outcome, the walk has called the listeners of a prefix of
    the sequence, each once and in order; the whole sequence on a normal
    return. *)
Lemma for_each_log_prefix v args : ∀ ev w,
  ∃ k, k ≤ length v
       ∧ log (world (for_each v (body args) ev w))
         = log w ++ calls_of args (take k v)
       ∧ (outcome (for_each v (body args) ev w) = Normal tt → k = length v).
Proof.
  induction v as [|l v IH]; intros ev w; simpl.
  - exists 0. by rewrite app_nil_r.
  - unfold bind.
    pose proof (call_log code (callback l) args ev w) as Hlog.
    destruct (outcome (call code (callback l) args ev w)) as [[]|e];
      cbv beta iota.
    + destruct (IH (this (call code (callback l) args ev w))
                   (world (call code (callback l) args ev w)))
        as (k & Hk & Hklog & Hkn).
      exists (S k). split; [lia|]. split.
      * rewrite Hklog, Hlog. simpl. by rewrite <- app_assoc.
      * intros Hn. by rewrite (Hkn Hn).
    + exists 1. split; [lia|]. split; [|done].
      cbn [world]. rewrite Hlog. simpl. by rewrite ?take_0, ?app_nil_r.
Qed.

(** The calls a registered listener makes differ from the call of any
    registration whose removal would not take its record. *)
Lemma calls_of_unmatched reg reg' args (c : Call Args) :
  matches reg (record_of reg') = false →
  c ∈ calls_of_callback args (invoker reg') →
  ∀ a, c ≠ expected_call a reg.
Proof.
  intros Hm Hc a ->.
  destruct reg as [f|f|i m|i m], reg' as [f'|f'|i' m'|i' m'];
    simpl in *;
    try (unfold function_from_pointer in Hc;
         destruct (f' =? nullptr)%N; simpl in Hc);
    apply list_elem_of_In in Hc; simpl in Hc;
    first [contradiction | destruct Hc as [Hc|[]]]; try discriminate Hc;
    inversion Hc; subst; rewrite ?N.eqb_refl in Hm; discriminate Hm.
Qed.

Lemma Trigger_after_push reg args ev w :
  let r := (AddListener_of reg >> Trigger code args) ev w : run in
  let r' := (Trigger code args >> call code (invoker reg) args) ev w : run in
  outcome r = outcome r' ∧ world r = world r'.
Proof.
  cbv zeta. unfold bind. rewrite AddListener_of_run.
  cbn [outcome this world]. rewrite !Trigger_for_each. cbn [_listeners].
  set (ev' := {| _listeners := _listeners ev ++ [record_of reg] |}).
  rewrite for_each_app. unfold bind.
  destruct (for_each_independent code (_listeners ev) args ev' ev w)
    as [Hw Ho].
  rewrite Ho, Hw, !for_each_this.
  destruct (outcome (for_each (_listeners ev) (body args) ev w)) as [[]|e];
    cbv beta iota; [|done].
  cbn [for_each]. unfold bind, ret.
  destruct (call_world_independent code (callback (record_of reg)) args ev' ev
              (world (for_each (_listeners ev) (body args) ev w)))
    as [Hcw Hco].
  change (callback (record_of reg)) with (invoker reg) in *.
  rewrite Hco, Hcw.
  by destruct (outcome (call code (invoker reg) args ev _)) as [[]|e].
Qed.

(** X1: the four RemoveListener overloads give the same channel whatever
    state a move leaves a [std::function] in: no moved-from record is ever
    left in the listener sequence. *)
Theorem RemoveListener_moved_from_irrelevant
    (moved1 moved2 : Callback → Callback) reg ev w :
  RemoveListener_of moved1 reg ev w
  = (RemoveListener_of moved2 reg ev w : run).
Proof. by rewrite !RemoveListener_of_run. Qed.

(** X2: RemoveListener is idempotent: the same removal made twice in a row
    leaves what one removal leaves. *)
Theorem RemoveListener_twice reg ev w :
  (RemoveListener_of moved_from_callback reg
   >> RemoveListener_of moved_from_callback reg) ev w
  = (RemoveListener_of moved_from_callback reg ev w : run).
Proof.
  unfold bind. rewrite !RemoveListener_of_run.
  cbn [outcome this world _listeners]. by rewrite filter_filter_same.
Qed.

(** X3: two removals commute: the channel after RemoveListener for one
    registration and then for another does not depend on which came
    first. *)
Theorem RemoveListener_commute reg1 reg2 ev w :
  (RemoveListener_of moved_from_callback reg1
   >> RemoveListener_of moved_from_callback reg2) ev w
  = ((RemoveListener_of moved_from_callback reg2
      >> RemoveListener_of moved_from_callback reg1) ev w : run).
Proof.
  unfold bind. rewrite !RemoveListener_of_run.
  cbn [outcome this world _listeners]. by rewrite filter_filter_swap.
Qed.

(** X4: AddListener followed by the mirroring RemoveListener gives the
    channel back as it was, provided no record of the channel matched that
    removal before. *)
Theorem AddListener_then_RemoveListener reg ev w :
  (∀ l, l ∈ _listeners ev → matches reg l = false) →
  (AddListener_of reg >> RemoveListener_of moved_from_callback reg) ev w
  = (mk_Run (Normal tt) ev w : run).
Proof.
  intros Hnone. unfold bind. rewrite AddListener_of_run.
  cbn [outcome this world]. rewrite RemoveListener_of_run. cbn [_listeners].
  rewrite filter_app. simpl. rewrite matches_record_of. simpl.
  rewrite app_nil_r, filter_keep_all by done. by rewrite Event_eta.
Qed.

(** X5: sizes: AddListener makes the sequence one longer; RemoveListener
    makes it shorter by the number of records that match, and by nothing
    else. *)
Theorem listener_count reg ev w :
  length (_listeners (this (AddListener_of reg ev w : run)))
  = S (length (_listeners ev))
  ∧ length (_listeners (this (RemoveListener_of moved_from_callback reg ev w : run)))
    + length (List.filter (matches reg) (_listeners ev))
    = length (_listeners ev).
Proof.
  rewrite AddListener_of_run, RemoveListener_of_run. cbn [this _listeners].
  split.
  - rewrite length_app. simpl. lia.
  - apply filter_split_length.
Qed.

(** X6: however Trigger ends, the calls it has made are those of the
    first k listeners of the sequence, for some k, each once and in
    order, and nothing else is added to the log; k is the length of the
    sequence when Trigger returns normally. *)
Theorem Trigger_calls_a_prefix args ev w :
  ∃ k, k ≤ length (_listeners ev)
       ∧ log (world (Trigger code args ev w))
         = log w ++ calls_of args (take k (_listeners ev))
       ∧ (outcome (Trigger code args ev w) = Normal tt
          → k = length (_listeners ev)).
Proof. rewrite Trigger_for_each. apply for_each_log_prefix. Qed.

(** X7: after any series of operations on a new Event, RemoveListener for
    a registration followed by Trigger does not make the call of that
    registration, with any arguments and however Trigger ends. *)
Theorem removed_listener_is_not_called (ops : list (@Op Args)) reg args w0 :
  let s := run_ops code moved_from_callback ops new_Event w0 in
  let r := (RemoveListener_of moved_from_callback reg >> Trigger code args)
             s.1 s.2 : run in
  ∃ calls, log (world r) = log s.2 ++ calls
           ∧ Forall (λ c, ∀ a, c ≠ expected_call a reg) calls.
Proof.
  cbv zeta. unfold bind. rewrite RemoveListener_of_run.
  cbn [outcome this world]. rewrite Trigger_for_each. cbn [_listeners].
  set (s := run_ops code moved_from_callback ops new_Event w0).
  set (kept := List.filter (λ l, negb (matches reg l)) (_listeners s.1)).
  destruct (for_each_log_prefix kept args {| _listeners := kept |} s.2)
    as (k & _ & Hlog & _).
  exists (calls_of args (take k kept)). split; [done|].
  apply Forall_forall. intros c Hc.
  unfold calls_of in Hc. apply in_flat_map in Hc as (l & Hl & Hcl).
  apply list_elem_of_In in Hl, Hcl.
  apply subseteq_take in Hl.
  apply filter_keep_elem_of in Hl as [Hl Hm].
  pose proof (run_ops_sublist code moved_from_callback ops new_Event w0)
    as Hsub.
  apply (elem_of_sublist _ _ _ Hl) in Hsub. simpl in Hsub.
  apply list_elem_of_In, in_map_iff in Hsub as (reg' & <- & _).
  by apply (calls_of_unmatched reg reg' args).
Qed.

(** X8: RemoveListener(instance, function) with a non-null instance
    removes no plain-function listener: the records without owner are all
    kept, in their order. *)
Theorem RemoveListener_method_keeps_functions
    (instance : ptr) (function : MemFn) ev w :
  instance ≠ nullptr →
  let r := RemoveListener_method moved_from_callback instance function ev w
           : run in
  let r0 := RemoveListener_method0 moved_from_callback instance function ev w
            : run in
  List.filter (λ l, (instancePtr l =? nullptr)%N) (_listeners (this r))
  = List.filter (λ l, (instancePtr l =? nullptr)%N) (_listeners ev)
  ∧ r0 = r.
Proof.
  intros Hne. cbv zeta. split; [|done].
  pose proof (RemoveListener_of_run (Exn:=Exn) moved_from_callback
                (reg_method instance function) ev w) as Hrun.
  cbn [RemoveListener_of matches] in Hrun. rewrite Hrun. cbn [this _listeners].
  apply filter_filter_disjoint. intros l Hl.
  apply negb_false_iff, andb_true_iff in Hl as [Hi _].
  apply N.eqb_eq in Hi. apply N.eqb_neq. by rewrite Hi.
Qed.

(** X9: a listener added last is called last and does not change what the
    earlier listeners do: AddListener followed by Trigger ends as Trigger
    on the old channel followed by one call of the new closure. *)
Theorem Trigger_after_AddListener reg args ev w :
  let r' := (Trigger code args >> call code (invoker reg) args) ev w : run in
  (AddListener_of reg >> Trigger code args) ev w
  = mk_Run (outcome r') {| _listeners := _listeners ev ++ [record_of reg] |}
      (world r').
Proof.
  cbv zeta.
  destruct (Trigger_after_push reg args ev w) as [Ho Hw].
  cbv zeta in Ho, Hw. rewrite <- Ho, <- Hw.
  rewrite <- (Run_eta ((AddListener_of reg >> Trigger code args) ev w)) at 1.
  f_equal. unfold bind. rewrite AddListener_of_run.
  cbn [outcome this world]. by rewrite Trigger_this.
Qed.

(** X10: a null function pointer given to the exact-signature AddListener
    is stored as an empty [std::function]: when the listeners before it
    return normally, Trigger ends with [bad_function_call], without a
    further call. *)
Theorem Trigger_null_function_pointer args ev w :
  outcome (Trigger code args ev w) = Normal tt →
  (AddListener_function nullptr >> Trigger code args) ev w
  = (mk_Run (Raised bad_function_call)
       {| _listeners := _listeners ev ++ [mk_Listener nullptr nullptr cb_empty] |}
       (world (Trigger code args ev w)) : run).
Proof.
  intros Hn.
  pose proof (Trigger_after_push (reg_function nullptr) args ev w) as [Ho Hw].
  cbv zeta in Ho, Hw. cbn [AddListener_of] in Ho, Hw.
  rewrite <- (Run_eta ((AddListener_function nullptr >> Trigger code args) ev w)).
  rewrite Ho, Hw. unfold bind at 1 3. rewrite Hn. cbn [invoker].
  f_equal. unfold bind. unfold AddListener_function, modify_listeners.
  cbn [outcome this world]. by rewrite Trigger_this.
Qed.

End Event_more.

(** ** The specialization [Event<>] *)

Section Event0_facts.
Context {U Exn : Type}.
Variable code : Call unit → U → option Exn * U.
Variable moved_from_callback : Callback → Callback.

Implicit Types (ev : Event) (w : World unit U) (reg : Event0.Registration0).

Local Abbreviation run0 := (Run unit U Exn unit).
Local Abbreviation member := (@Event0.M0 U Exn unit).

Lemma Event0_AddListener_of_generic reg :
  (Event0.AddListener_of reg : member)
  = AddListener_of (Event0.exact_signature reg).
Proof. by destruct reg. Qed.

Lemma Event0_RemoveListener_of_generic reg :
  (Event0.RemoveListener_of moved_from_callback reg : member)
  = RemoveListener_of moved_from_callback (Event0.exact_signature reg).
Proof. by destruct reg. Qed.

Lemma Event0_record_of_generic reg :
  Event0.record0_of reg = record_of (Event0.exact_signature reg).
Proof. by destruct reg. Qed.

Lemma Event0_sequence_AddListener (regs : list Event0.Registration0) :
  (sequence (map Event0.AddListener_of regs) : member)
  = sequence (map AddListener_of (map Event0.exact_signature regs)).
Proof.
  induction regs as [|reg regs IH]; simpl; [done|].
  by rewrite IH, Event0_AddListener_of_generic.
Qed.

(** X11: with [Event<>], after any sequence of AddListener calls, a
    Trigger() that returns without a fault has called the listeners the
    channel held before and then each registered listener once, in
    registration order, without arguments. *)
Theorem Event0_Trigger_calls_each_registered_once
    (regs : list Event0.Registration0) ev w :
  let r := (sequence (map Event0.AddListener_of regs) >> Event0.Trigger code)
             ev w : run0 in
  outcome r = Normal tt →
  log (world r)
  = log w ++ calls_of tt (_listeners ev) ++ map Event0.expected_call0 regs.
Proof.
  cbv zeta. rewrite Event0_sequence_AddListener. unfold bind.
  rewrite sequence_AddListener_run. cbn [outcome this world].
  change (Event0.Trigger code) with (Trigger code tt).
  rewrite Trigger_for_each. cbn [_listeners]. intros Hn.
  rewrite (for_each_then_registered_log code _ _ tt _ _ Hn).
  do 2 f_equal. rewrite map_map. apply map_ext. by intros [f|i m].
Qed.

(** X12: with [Event<>], RemoveListener(function) returns normally and
    keeps, in their order, exactly the records whose [functionPtr] is not
    the address of the function; RemoveListener(instance, function) keeps
    exactly the records that differ from the pair in [instancePtr] or in
    [functionPtr]; nothing outside the channel changes. *)
Theorem Event0_RemoveListener_removes_exactly reg ev w :
  Event0.RemoveListener_of moved_from_callback reg ev w
  = (mk_Run (Normal tt)
       {| _listeners :=
            List.filter (λ l, negb (Event0.matches0 reg l)) (_listeners ev) |}
       w : run0).
Proof.
  rewrite Event0_RemoveListener_of_generic, RemoveListener_of_run.
  by destruct reg.
Qed.

(** X13: with [Event<>], Trigger() leaves the channel as it was, and,
    however it ends, it has called the first k listeners of the sequence,
    for some k, each once and in order; all of them on a normal return. *)
Theorem Event0_Trigger_calls_a_prefix ev w :
  this (Event0.Trigger code ev w) = ev
  ∧ ∃ k, k ≤ length (_listeners ev)
         ∧ log (world (Event0.Trigger code ev w))
           = log w ++ calls_of tt (take k (_listeners ev))
         ∧ (outcome (Event0.Trigger code ev w) = Normal tt
            → k = length (_listeners ev)).
Proof.
  change (Event0.Trigger code) with (Trigger code tt). split.
  - apply Trigger_this.
  - rewrite Trigger_for_each. apply for_each_log_prefix.
Qed.

(** X14: with [Event<>], a listener that is added and then removed with
    the mirroring RemoveListener leaves the channel as it was, when no
    record matched before; and RemoveAllListeners followed by Trigger()
    returns normally without a call, whatever the channel held. *)
Theorem Event0_AddListener_then_RemoveListener reg ev w :
  (∀ l, l ∈ _listeners ev → Event0.matches0 reg l = false) →
  (Event0.AddListener_of reg >> Event0.RemoveListener_of moved_from_callback reg)
    ev w
  = (mk_Run (Normal tt) ev w : run0)
  ∧ (Event0.RemoveAllListeners >> Event0.Trigger code) ev w
    = (mk_Run (Normal tt) new_Event w : run0).
Proof.
  intros Hnone. split; [|done].
  unfold bind. rewrite Event0_AddListener_of_generic, AddListener_of_run.
  cbn [outcome this world].
  rewrite Event0_RemoveListener_of_generic, RemoveListener_of_run.
  cbn [_listeners]. rewrite filter_app. simpl.
  rewrite matches_record_of. simpl. rewrite app_nil_r.
  rewrite filter_keep_all; [by rewrite Event_eta|].
  intros l Hl. specialize (Hnone l Hl). by destruct reg.
Qed.

End Event0_facts.

(** ** Series of operations *)

Section Event_histories.
Context {Args U Exn : Type}.
Variable moved_from_callback : Callback → Callback.

Implicit Types (ev : Event) (w : World Args U) (ops : list (@Op Args)).

(** X15: only Trigger calls listeners: a series of AddListener,
    RemoveListener and RemoveAllListeners calls, in any number and order,
    leaves the log of calls and the caller's state untouched, whatever the
    listeners' code is. *)
Theorem only_Trigger_calls_listeners
    (code : Call Args → U → option Exn * U) ops ev w :
  forallb (λ op, negb (is_Trigger op)) ops = true →
  (run_ops code moved_from_callback ops ev w).2 = w.
Proof.
  revert ev w. induction ops as [|op ops IH]; intros ev w; simpl; [done|].
  intros Hops. apply andb_true_iff in Hops as [Hop Hops].
  destruct op as [reg|reg| |args]; try discriminate Hop; cbn [do_op].
  - rewrite AddListener_of_run. cbn [this world]. by apply IH.
  - rewrite RemoveListener_of_run. cbn [this world]. by apply IH.
  - by apply IH.
Qed.

(** X16: the listener sequence is decided by the AddListener,
    RemoveListener and RemoveAllListeners calls alone: the same series of
    operations gives the same channel whatever the listeners' code does,
    whether or not a Trigger ended with a fault, and with the Trigger calls
    left out. *)
Theorem channel_independent_of_listeners_code
    (code1 code2 : Call Args → U → option Exn * U) ops ev w1 w2 :
  (run_ops code1 moved_from_callback ops ev w1).1
  = (run_ops code2 moved_from_callback ops ev w2).1
  ∧ (run_ops code1 moved_from_callback ops ev w1).1
    = (run_ops code2 moved_from_callback
         (List.filter (λ op, negb (is_Trigger op)) ops) ev w2).1.
Proof.
  revert ev w1 w2. induction ops as [|op ops IH]; intros ev w1 w2; simpl;
    [done|].
  destruct op as [reg|reg| |args]; cbn [do_op is_Trigger negb run_ops].
  - rewrite !AddListener_of_run. cbn [this world]. apply IH.
  - rewrite !RemoveListener_of_run. cbn [this world]. apply IH.
  - apply IH.
  - rewrite !Trigger_this.
    split; [apply (proj1 (IH ev _ _)) | apply (proj2 (IH ev _ w2))].
Qed.

End Event_histories.

(** ** The further properties on the concrete programs *)

Section Example_more.
Import Example.

(** [obj1.OnEvent] added to a channel that holds [LogA] and removed
    again. *)
Lemma AddListener_then_RemoveListener_witness :
  let ev := {| _listeners := [record_of (reg_function0 5%N)] |} in
  let reg := reg_method obj1 OnEvent in
  (AddListener_of reg >> RemoveListener_of moved_from_callback reg) ev start
  = (mk_Run (Normal tt) ev start : Run Z nat nat unit).
Proof.
  apply (AddListener_then_RemoveListener moved_from_callback
           (reg_method obj1 OnEvent)).
  intros l Hl. apply list_elem_of_In in Hl. simpl in Hl.
  destruct Hl as [<-|[]]. reflexivity.
Defined.

(** Removing [obj1.OnEvent] from a channel that also holds [LogA] and a
    null function pointer keeps both plain-function records. *)
Lemma RemoveListener_method_keeps_functions_witness :
  let ev := {| _listeners := [record_of (reg_function0 5%N);
                              record_of (reg_method obj1 OnEvent);
                              record_of (reg_function nullptr)] |} in
  let r := RemoveListener_method moved_from_callback obj1 OnEvent ev start
           : Run Z nat nat unit in
  List.filter (λ l, (instancePtr l =? nullptr)%N) (_listeners (this r))
  = [record_of (reg_function0 5%N); record_of (reg_function nullptr)].
Proof.
  assert (obj1 ≠ nullptr) as Hne by discriminate.
  exact (proj1 (RemoveListener_method_keeps_functions (Exn:=nat)
                  moved_from_callback obj1 OnEvent
                  {| _listeners := [record_of (reg_function0 5%N);
                                    record_of (reg_method obj1 OnEvent);
                                    record_of (reg_function nullptr)] |}
                  start Hne)).
Defined.

(** A null pointer registered after [LogA]: Trigger(42) calls [LogA()] and
    ends with [bad_function_call]. *)
Lemma Trigger_null_function_pointer_witness :
  let ev := {| _listeners := [record_of (reg_function0 5%N)] |} in
  (AddListener_function nullptr >> Trigger code 42%Z) ev start
  = mk_Run (Raised bad_function_call)
      {| _listeners := [record_of (reg_function0 5%N);
                        mk_Listener nullptr nullptr cb_empty] |}
      (mk_World [call_function0 5%N] 1).
Proof.
  exact (Trigger_null_function_pointer code 42%Z
           {| _listeners := [record_of (reg_function0 5%N)] |} start eq_refl).
Defined.

(** The scenario of the specification for [Event<>]: [F1] and [F2] are
    registered; Trigger() calls [F1()], then [F2()]. *)
Lemma Event0_Trigger_calls_each_registered_once_witness :
  let regs := [Event0.reg0_function Example0.F1;
               Event0.reg0_function Example0.F2] in
  let r := (sequence (map Event0.AddListener_of regs)
            >> Event0.Trigger Example0.code) new_Event Example0.start in
  outcome r = Normal tt
  ∧ log (world r)
    = [call_function Example0.F1 tt; call_function Example0.F2 tt].
Proof.
  split; [reflexivity|].
  apply (Event0_Trigger_calls_each_registered_once Example0.code
           [Event0.reg0_function Example0.F1; Event0.reg0_function Example0.F2]
           new_Event Example0.start).
  reflexivity.
Defined.

(** [F2] added to a channel that holds [F1], and removed again. *)
Lemma Event0_AddListener_then_RemoveListener_witness :
  let ev := {| _listeners := [Event0.record0_of (Event0.reg0_function Example0.F1)] |} in
  let reg := Event0.reg0_function Example0.F2 in
  (Event0.AddListener_of reg
   >> Event0.RemoveListener_of moved_from_callback reg) ev Example0.start
  = (mk_Run (Normal tt) ev Example0.start : Run unit nat nat unit).
Proof.
  apply (Event0_AddListener_then_RemoveListener Example0.code
           moved_from_callback (Event0.reg0_function Example0.F2)).
  intros l Hl. apply list_elem_of_In in Hl. simpl in Hl.
  destruct Hl as [<-|[]]. reflexivity.
Defined.

(** [LogA] and [obj1.OnEvent] are registered and [LogA] removed again,
    without a Trigger: nothing has been called. *)
Lemma only_Trigger_calls_listeners_witness :
  let ops := [op_AddListener (reg_function0 5%N);
              op_AddListener (reg_method obj1 OnEvent);
              op_RemoveListener (reg_function0 5%N);
              op_RemoveAllListeners] in
  (run_ops code moved_from_callback ops new_Event start).2 = start.
Proof.
  apply (only_Trigger_calls_listeners moved_from_callback code).
  reflexivity.
Defined.

End Example_more.
